(** * Progress dashboard: a shallow embedding of [src/App.tsx]

    The dashboard narrows a roster and an exercise catalogue to the
    configured subset ([filteredStudents], [filteredExercises]), reduces
    each student's submissions to one latest record per exercise
    ([latestStatus]), collects one row per student ([handleRowComputed]),
    renders a status as a symbol ([getEmoji]) and serialises the table
    ([downloadCSV]).

    JavaScript arrays are mutable objects: [Array.prototype.sort] sorts in
    place and returns the very array it was called on, while
    [Array.prototype.filter] allocates a fresh array.  The two roster
    computations are therefore written over an explicit store of arrays,
    addressed by references, so that aliasing between the fetched list and
    the computed list is visible.

    The statuses of a row are a plain object used as a dictionary: an
    assignment under the key [__proto__] is lost, and a read under a key
    the object lacks goes on to [Object.prototype].  Both are modelled
    ([record_set], [record_get]). *)

From Stdlib Require Import ZArith Ascii String List Sorted Permutation.
From stdpp Require Import base option list gmap strings sorting pretty.

Open Scope string_scope.
Open Scope Z_scope.

(** ** JavaScript values *)

(** A value that may be [undefined] or [null] as well as present, for the
    one place where the source distinguishes nothing but accepts all three
    ([status?: string | null]). *)
Inductive Nullable (A : Type) : Type :=
  | Undefined
  | Null
  | Val (a : A).
Arguments Undefined {A}.
Arguments Null {A}.
Arguments Val {A} a.

(** [a ?? b]: the left operand unless it is nullish.  Everywhere else a
    possibly missing value is an [option], [None] standing for
    [undefined]/[null], which [?.] and [??] do not tell apart. *)
Definition nullish {A} (a : option A) (b : A) : A :=
  match a with
  | Some v => v
  | None => b
  end.

(** [o?.f]: the property [f] of [o], [undefined] when [o] is nullish. *)
Definition opt_chain {A B} (o : option A) (f : A → option B) : option B :=
  match o with
  | Some a => f a
  | None => None
  end.

(** The line feed, written ["\n"] in the source. *)
Definition LF : string := String (ascii_of_nat 10) EmptyString.

(** [Array.prototype.join] on an array of strings. *)
Definition join (sep : string) (fields : list string) : string :=
  String.concat sep fields.

(** [Array.prototype.at(-1)]: the last element, [undefined] on an empty
    array. *)
Definition at_last {A} (l : list A) : option A := last l.

(** ** Data model *)

(** Modelled from the spec: the [Student] type is declared in
    [api/queries/get_students]; the code reads [id] and [username]. *)
Record Student : Type := mkStudent {
  id : Z;
  student_username : string
}.

(** Modelled from the spec: the [Exercise] type is declared in
    [api/queries/get_exercises]; the code reads [exercise_name] only. *)
Record Exercise : Type := mkExercise {
  exercise_name : string
}.

(** Modelled from the spec: the [StudentExercise] type is declared in
    [api/queries/get_student_exercises]; the code reads
    [?.exerciseProgress?.status], so both levels may be missing. *)
Record ExerciseProgress : Type := mkExerciseProgress {
  status : option string
}.

Record StudentExercise : Type := mkStudentExercise {
  exerciseProgress : option ExerciseProgress
}.

(** An element of [tableDataRef.current]:
    [{ username: string; statuses: Record<string, string | undefined> }].
    The record of statuses is a finite map over its own string keys. *)
Record TableRow : Type := mkTableRow {
  username : string;
  statuses : gmap string (option string)
}.

(** ** A store of arrays *)

Module Store.

(** References are positive numbers; a store maps each live reference to
    the current contents of its array. *)
Abbreviation loc := positive.
Abbreviation heap A := (gmap positive (list A)).

(** Computations that read and update a store. *)
Definition State (S X : Type) : Type := S → X * S.

Definition ret {S X} (x : X) : State S X := λ s, (x, s).

Definition bind {S X Y} (c : State S X) (k : X → State S Y) : State S Y :=
  λ s, let '(x, s') := c s in k x s'.

Section Arrays.
Context {A : Type}.

(** Contents of the array at [a]. *)
Definition read (h : heap A) (a : loc) : list A := default [] (h !! a).

(** An array literal or any other freshly built array. *)
Definition alloc (l : list A) : State (heap A) loc :=
  λ h, let a := fresh (dom h) in (a, <[a := l]> h).

(** [a.filter(p)]: a new array; [a] is left as it is. *)
Definition array_filter (p : A → bool) (a : loc) : State (heap A) loc :=
  λ h, alloc (List.filter p (read h a)) h.

(** Insertion of [x] in front of the first element it does not follow. *)
Fixpoint insert_by (cmp : A → A → Z) (x : A) (l : list A) : list A :=
  match l with
  | [] => [x]
  | y :: l' =>
      if Z.leb (cmp x y) 0 then x :: y :: l' else y :: insert_by cmp x l'
  end.

(** The order [a.sort(cmp)] produces for a consistent comparator: the
    stable ascending arrangement. *)
Fixpoint sort_by (cmp : A → A → Z) (l : list A) : list A :=
  match l with
  | [] => []
  | x :: l' => insert_by cmp x (sort_by cmp l')
  end.

(** [a.sort(cmp)]: rearranges the array at [a] itself and returns [a]. *)
Definition array_sort (cmp : A → A → Z) (a : loc) : State (heap A) loc :=
  λ h, (a, <[a := sort_by cmp (read h a)]> h).

(** Contents of the array a store computation returns, in the store it
    leaves. *)
Definition result_of (c : State (heap A) loc) (h : heap A) : option (list A) :=
  (c h).2 !! (c h).1.

End Arrays.

End Store.

Import Store.

(** ** Roster Filter *)

(** [new Set(xs).has(x)] on strings. *)
Definition set_has (s : gset string) (x : string) : bool :=
  bool_decide (x ∈ s).

Section RosterFilter.

(** [String.prototype.localeCompare]: negative, zero or positive. *)
Variable localeCompare : string → string → Z.

(** The comparator handed to [sort]:
    [(a, b) => a.exercise_name.localeCompare(b.exercise_name)]. *)
Definition by_exercise_name (a b : Exercise) : Z :=
  localeCompare (exercise_name a) (exercise_name b).

(** [filteredExercises] (App.tsx, lines 17-29). [EXERCISES] is the
    configured allow-list, [allExercises] the fetched array if any. *)
Definition filteredExercises (EXERCISES : list string)
    (allExercises : option loc) (isExercisesLoading : bool)
    : State (heap Exercise) loc :=
  match allExercises with
  | None => alloc []
  | Some all =>
      if isExercisesLoading then alloc []
      else
        let exercisesSet : gset string := list_to_set EXERCISES in
        bind
          (if Nat.eqb (length EXERCISES) 0 then ret all
           else array_filter
                  (λ exercise, set_has exercisesSet (exercise_name exercise))
                  all)
          (λ exercises, array_sort by_exercise_name exercises)
  end.

End RosterFilter.

(** [filteredStudents] (App.tsx, lines 34-38). *)
Definition filteredStudents (STUDENTS : list string)
    (allStudents : option loc) (isStudentsLoading : bool)
    : State (heap Student) loc :=
  match allStudents with
  | None => alloc []
  | Some all =>
      if isStudentsLoading then alloc []
      else
        let studentsSet : gset string := list_to_set STUDENTS in
        array_filter
          (λ student, set_has studentsSet (student_username student))
          all
  end.

(** Comparison of strings by code units, a consistent comparator that
    agrees with locale-aware comparison on names made of lower-case
    ASCII letters; it is used to run the filter on concrete rosters. *)
Definition codeUnitCompare (a b : string) : Z :=
  match String.compare a b with
  | Lt => -1
  | Eq => 0
  | Gt => 1
  end.

(** ** Row Aggregator *)

(** [handleRowComputed] (App.tsx, lines 44-56), as a function from the
    value of [tableDataRef.current] before the call to its value after. *)
Definition handleRowComputed (tableData : list TableRow) (row : TableRow)
    : list TableRow :=
  filter (λ r, username r ≠ username row) tableData ++ [row].

(** The values [tableDataRef.current] can take: it starts as the empty
    array and is assigned nowhere but in [handleRowComputed]. *)
Inductive reachable : list TableRow → Prop :=
  | reachable_init : reachable []
  | reachable_upsert tableData row :
      reachable tableData → reachable (handleRowComputed tableData row).

(** ** Progress Resolver *)

(** [Map.prototype.get] on a map whose stored values may be
    [undefined]: an absent key reads as [undefined] too. *)
Definition map_get {V} (m : gmap string (option V)) (k : string) : option V :=
  match m !! k with
  | Some v => v
  | None => None
  end.

(** ** Plain objects *)

(** A value read from a plain object whose own properties hold strings:
    a string, or a member inherited from [Object.prototype], a function
    or an object, known here by the text [String] gives it. *)
Inductive JsValue : Type :=
  | JsString (s : string)
  | JsInherited (text : string).

(** The text [Array.prototype.join] writes for a value. *)
Definition to_text (v : JsValue) : string :=
  match v with
  | JsString s => s
  | JsInherited text => text
  end.

(** [Object.prototype], as far as a read through an object literal sees
    it: for each key it has, the text of the member found there.  Which
    members there are, and the text of a built-in function, depend on
    the engine.  The key [__proto__] is there in every engine: an
    accessor whose getter gives the prototype of the object read, for an
    object literal [Object.prototype] itself, printed as
    ["[object Object]"], and whose setter ignores every value that is
    neither an object nor [null].  The other members are taken to be
    writable data properties, as they are unless a script redefines
    them. *)
Class ObjectPrototype : Type := {
  inherited_text : string → option string;
  inherited_proto : inherited_text "__proto__" = Some "[object Object]"
}.

(** [o[k]] on an object literal [o], given by its own properties: the own
    property if there is one, whatever it holds, and otherwise what
    [Object.prototype] has under [k], [undefined] if nothing. *)
Definition record_get {proto : ObjectPrototype}
    (o : gmap string (option string)) (k : string) : option JsValue :=
  match o !! k with
  | Some v => option_map JsString v
  | None => option_map JsInherited (inherited_text k)
  end.

(** [o[k] = v] on an object literal [o], for a string [v]: the setter of
    [__proto__] drops the string and [o] gets no property; under any
    other key [o] gets, or keeps, an own property holding [v]. *)
Definition record_set (o : gmap string (option string)) (k v : string)
    : gmap string (option string) :=
  if String.eqb k "__proto__" then o else <[k := Some v]> o.

(** The members of [Object.prototype] in today's browsers and in Node,
    with built-in functions printed the way V8 prints them; it is used
    to run the exporter on concrete tables. *)
Definition standard_inherited_text (k : string) : option string :=
  if String.eqb k "__proto__" then Some "[object Object]"
  else if String.eqb k "constructor"
  then Some "function Object() { [native code] }"
  else if bool_decide
            (k ∈ ["__defineGetter__"; "__defineSetter__"; "hasOwnProperty";
                  "__lookupGetter__"; "__lookupSetter__"; "isPrototypeOf";
                  "propertyIsEnumerable"; "toString"; "valueOf";
                  "toLocaleString"])
  then Some ("function " ++ k ++ "() { [native code] }")
  else None.

Global Instance standard_prototype : ObjectPrototype := {|
  inherited_text := standard_inherited_text;
  inherited_proto := eq_refl
|}.

(** [latestStatus] (App.tsx, lines 148-157).  The non-null assertion on
    [exercises.at(-1)!] is erased at run time, so the value stored for an
    empty sequence is [undefined]. *)
Definition latestStatus
    (studentProgress : option (gmap string (list StudentExercise)))
    (isStudentProgressLoading : bool)
    : gmap string (option StudentExercise) :=
  match studentProgress with
  | None => ∅
  | Some progress =>
      if isStudentProgressLoading then ∅
      else
        map_fold
          (λ exerciseName exercises result,
             <[exerciseName := at_last exercises]> result)
          ∅ progress
  end.

(** [latestStatus.get(name)?.exerciseProgress?.status ?? ""]
    (App.tsx, lines 180 and 196-198). *)
Definition rawStatus (latest : gmap string (option StudentExercise))
    (name : string) : string :=
  nullish
    (opt_chain (opt_chain (map_get latest name) exerciseProgress) status)
    "".

(** ** Status Presenter *)

(** [getEmoji] (App.tsx, lines 159-173): a [switch] compares with [===],
    case after case. *)
Definition getEmoji (st : Nullable string) : string :=
  match st with
  | Val s =>
      if (String.eqb s "SUCCESSFUL" || String.eqb s "Completed")%bool
      then "✅"
      else if (String.eqb s "UNSUCCESSFUL" || String.eqb s "Incomplete")%bool
      then "❌"
      else if (String.eqb s "ERROR" || String.eqb s "Error")%bool
      then "⚠️"
      else ""
  | Undefined | Null => ""
  end.

(** ** One table row *)

(** The [statuses] object built in [StudentProgressRow]
    (App.tsx, lines 177-181): an object literal, assigned to once per
    filtered exercise. *)
Definition computeStatuses (latest : gmap string (option StudentExercise))
    (filtered : list Exercise) : gmap string (option string) :=
  foldl
    (λ statuses ex,
       record_set statuses (exercise_name ex)
         (rawStatus latest (exercise_name ex)))
    ∅ filtered.

(** The effect of rendering [StudentProgressRow] on the row collection
    (App.tsx, lines 175-190): nothing while loading, otherwise one call
    of [onRowComputed], which [App] binds to [handleRowComputed]. *)
Definition StudentProgressRow_effect (student : Student)
    (studentProgress : option (gmap string (list StudentExercise)))
    (isStudentProgressLoading : bool) (filtered : list Exercise)
    (tableData : list TableRow) : list TableRow :=
  if isStudentProgressLoading then tableData
  else
    handleRowComputed tableData
      {| username := student_username student;
         statuses :=
           computeStatuses
             (latestStatus studentProgress isStudentProgressLoading)
             filtered |}.

(** The cells [StudentProgressRow] renders (App.tsx, lines 192-206): the
    username, then one symbol per filtered exercise. *)
Definition StudentProgressRow_cells (student : Student)
    (studentProgress : option (gmap string (list StudentExercise)))
    (isStudentProgressLoading : bool) (filtered : list Exercise)
    : list string :=
  student_username student ::
  map
    (λ exercise,
       getEmoji
         (Val (rawStatus
                 (latestStatus studentProgress isStudentProgressLoading)
                 (exercise_name exercise))))
    filtered.

(** ** Snapshot Exporter *)

(** What the browser is asked to save: the blob's text and type, and the
    [download] attribute of the link. *)
Record Download : Type := mkDownload {
  content : string;
  mime : string;
  filename : string
}.

(** The header line's cells (App.tsx, lines 61-64). *)
Definition csv_headers (filtered : list Exercise) : list string :=
  "Github Username" :: map exercise_name filtered.

(** One row's cells (App.tsx, lines 65-68), each as [join] goes on to
    write it (line 71). *)
Definition csv_row {proto : ObjectPrototype} (filtered : list Exercise)
    (row : TableRow) : list string :=
  username row ::
  map
    (λ ex,
       to_text
         (nullish (record_get (statuses row) (exercise_name ex))
            (JsString "")))
    filtered.

(** [downloadCSV] (App.tsx, lines 58-82).  [now] is [Date.now()], in
    milliseconds; [None] is the early return, after which nothing is
    built and no link is clicked. *)
Definition downloadCSV {proto : ObjectPrototype} (tableData : list TableRow)
    (filtered : list Exercise) (now : Z) : option Download :=
  if Nat.eqb (length tableData) 0 then None
  else
    let headers := csv_headers filtered in
    let rows := map (csv_row filtered) tableData in
    let csvContent :=
      join "," headers ++ LF ++ join LF (map (λ r, join "," r) rows) in
    let timestamp := now / 1000 in
    Some {| content := csvContent;
            mime := "text/csv;charset=utf-8;";
            filename := "progress_" ++ pretty timestamp ++ ".csv" |}.

(** A row's cells as the specification describes them, for comparison:
    the username, then per column the row's status, the empty string
    where the row has none. *)
Definition spec_csv_row (filtered : list Exercise) (row : TableRow)
    : list string :=
  username row ::
  map
    (λ ex,
       match statuses row !! exercise_name ex with
       | Some (Some st) => st
       | _ => ""
       end)
    filtered.


(** ** Reading an exported document back *)

(** Whether the character [c] occurs in [s]. *)
Fixpoint has_char (c : ascii) (s : string) : bool :=
  match s with
  | EmptyString => false
  | String a s' => Ascii.eqb a c || has_char c s'
  end.

(** [s.split(c)] for a separator of one character: the pieces between
    the occurrences of [c], one piece for a string without any. *)
Fixpoint split_on (c : ascii) (s : string) : list string :=
  match s with
  | EmptyString => [EmptyString]
  | String a s' =>
      if Ascii.eqb a c then EmptyString :: split_on c s'
      else
        match split_on c s' with
        | [] => [String a EmptyString]
        | piece :: pieces => String a piece :: pieces
        end
  end.

(** The comma, as a character. *)
Definition COMMA : ascii := ascii_of_nat 44.

(** A cell that holds neither separator of the exported document. *)
Definition plain_cell (s : string) : bool :=
  negb (has_char COMMA s) && negb (has_char (ascii_of_nat 10) s).

(** The document read back: its lines, each split into cells. *)
Definition parse_csv (document : string) : list (list string) :=
  map (split_on COMMA) (split_on (ascii_of_nat 10) document).

(** ** A worked roster *)

Module Scenario.

Definition ann : Student := {| id := 1; student_username := "ann" |}.
Definition loops : Exercise := {| exercise_name := "loops" |}.
Definition arrays : Exercise := {| exercise_name := "arrays" |}.

(** The store after both fetches: the students at [1], the exercises, in
    the order fetched, at [1] of their own store. *)
Definition students_store : gmap positive (list Student) := {[ 1%positive := [ann] ]}.
Definition exercises_store : gmap positive (list Exercise) :=
  {[ 1%positive := [loops; arrays] ]}.

Definition submission (s : string) : StudentExercise :=
  {| exerciseProgress := Some {| status := Some s |} |}.

Definition ann_progress : gmap string (list StudentExercise) :=
  {[ "loops" := [submission "UNSUCCESSFUL"; submission "SUCCESSFUL"] ]}.

Definition ann_row : TableRow :=
  {| username := "ann";
     statuses := {[ "arrays" := Some ""; "loops" := Some "SUCCESSFUL" ]} |}.

(** A row collection reached by two upserts: a stale row of ann's, then a
    row of another student. *)
Definition stale_ann_row : TableRow := {| username := "ann"; statuses := ∅ |}.
Definition bob_row : TableRow := {| username := "bob"; statuses := ∅ |}.
Definition two_rows : list TableRow :=
  handleRowComputed (handleRowComputed [] stale_ann_row) bob_row.


(** A row whose username holds the separator. *)
Definition comma_row : TableRow :=
  {| username := "ann,b"; statuses := {[ "loops" := Some "ERROR" ]} |}.

(** An exercise named like the accessor of [Object.prototype], and a
    student with no submission record for it. *)
Definition proto_exercise : Exercise := {| exercise_name := "__proto__" |}.

(** The row computed for ann over that one exercise: no status in it. *)
Definition proto_row : TableRow := {| username := "ann"; statuses := ∅ |}.

End Scenario.

Import Scenario.

(** * Properties *)

(** ** Arrays and sorting *)

Section SortFacts.
Context {A : Type}.
Variable cmp : A → A → Z.

(** A consistent comparator: any two elements are ordered one way or the
    other, and the order is transitive. *)
Hypothesis cmp_total : ∀ x y, cmp x y ≤ 0 ∨ cmp y x ≤ 0.
Hypothesis cmp_trans : ∀ x y z, cmp x y ≤ 0 → cmp y z ≤ 0 → cmp x z ≤ 0.

Lemma insert_by_perm x l : insert_by cmp x l ≡ₚ x :: l.
Proof.
  induction l as [|y l IH]; simpl; [done|].
  destruct (Z.leb (cmp x y) 0); [done|].
  rewrite IH. apply Permutation_swap.
Qed.

Lemma sort_by_perm l : sort_by cmp l ≡ₚ l.
Proof.
  induction l as [|x l IH]; simpl; [done|].
  by rewrite insert_by_perm, IH.
Qed.

Lemma insert_by_sorted x l :
  StronglySorted (λ a b, cmp a b ≤ 0) l →
  StronglySorted (λ a b, cmp a b ≤ 0) (insert_by cmp x l).
Proof.
  induction l as [|y l IH]; intros Hs; simpl.
  - repeat constructor.
  - apply StronglySorted_cons in Hs as [Hy Hl].
    destruct (Z.leb (cmp x y) 0) eqn:Hxy.
    + apply Z.leb_le in Hxy.
      apply StronglySorted_cons; split.
      * constructor; [done|].
        eapply Forall_impl; [exact Hy|]. intros z Hz. by eapply cmp_trans.
      * by apply StronglySorted_cons.
    + apply Z.leb_gt in Hxy.
      apply StronglySorted_cons; split; [|by apply IH].
      rewrite insert_by_perm. constructor; [|done].
      destruct (cmp_total x y); lia.
Qed.

Lemma sort_by_sorted l : StronglySorted (λ a b, cmp a b ≤ 0) (sort_by cmp l).
Proof.
  induction l as [|x l IH]; simpl; [constructor|].
  by apply insert_by_sorted.
Qed.

End SortFacts.

Section StoreFacts.
Context {A : Type}.
Implicit Types (h : gmap positive (list A)) (a : positive) (l : list A).

Lemma read_lookup h a l : h !! a = Some l → read h a = l.
Proof. unfold read. by intros ->. Qed.

Lemma alloc_fresh l h : h !! (alloc l h).1 = None.
Proof.
  simpl. apply not_elem_of_dom. apply is_fresh.
Qed.

Lemma alloc_lookup_new l h : (alloc l h).2 !! (alloc l h).1 = Some l.
Proof. simpl. apply lookup_insert_eq. Qed.

(** Allocation leaves every live array as it is. *)
Lemma alloc_lookup_old l h a l' :
  h !! a = Some l' → (alloc l h).2 !! a = Some l'.
Proof.
  intros Ha. simpl. rewrite lookup_insert_ne; [done|].
  intros <-. pose proof (alloc_fresh l h) as Hf. simpl in Hf. congruence.
Qed.

End StoreFacts.

(** ** The code-unit comparator is consistent *)

Lemma ascii_compare_trans_lt (a b c : ascii) :
  Ascii.compare a b = Lt → Ascii.compare b c = Lt → Ascii.compare a c = Lt.
Proof.
  unfold Ascii.compare. rewrite !N.compare_lt_iff. lia.
Qed.

Lemma string_compare_trans_lt (s1 s2 s3 : string) :
  String.compare s1 s2 = Lt → String.compare s2 s3 = Lt →
  String.compare s1 s3 = Lt.
Proof.
  revert s2 s3.
  induction s1 as [|a s1 IH]; intros [|b s2] [|c s3]; simpl; try done.
  destruct (Ascii.compare a b) eqn:Hab; try done;
    destruct (Ascii.compare b c) eqn:Hbc; try done.
  - apply Ascii.compare_eq_iff in Hab as ->.
    apply Ascii.compare_eq_iff in Hbc as ->.
    assert (Ascii.compare c c = Eq) as ->; [|by apply IH].
    unfold Ascii.compare. apply N.compare_refl.
  - apply Ascii.compare_eq_iff in Hab as ->. by rewrite Hbc.
  - apply Ascii.compare_eq_iff in Hbc as ->. by rewrite Hab.
  - by rewrite (ascii_compare_trans_lt a b c).
Qed.

Lemma codeUnitCompare_le (a b : string) :
  codeUnitCompare a b ≤ 0 ↔ String.compare a b ≠ Gt.
Proof.
  unfold codeUnitCompare. destruct (String.compare a b); split; try done; lia.
Qed.

Lemma codeUnitCompare_total (a b : string) :
  codeUnitCompare a b ≤ 0 ∨ codeUnitCompare b a ≤ 0.
Proof.
  rewrite !codeUnitCompare_le, (String.compare_antisym b a).
  destruct (String.compare a b); simpl; [left|left|right]; done.
Qed.

Lemma codeUnitCompare_trans (a b c : string) :
  codeUnitCompare a b ≤ 0 → codeUnitCompare b c ≤ 0 → codeUnitCompare a c ≤ 0.
Proof.
  rewrite !codeUnitCompare_le. intros Hab Hbc.
  destruct (String.compare a b) eqn:Eab; [| |done].
  - apply String.compare_eq_iff in Eab as ->. done.
  - destruct (String.compare b c) eqn:Ebc; [| |done].
    + apply String.compare_eq_iff in Ebc as <-. by rewrite Eab.
    + by rewrite (string_compare_trans_lt a b c).
Qed.

(** ** Roster Filter *)

Lemma filter_set_has {A} (f : A → string) (allow : list string) (l : list A) :
  List.filter (λ x, set_has (list_to_set allow) (f x)) l
  = filter (λ x, f x ∈ allow) l.
Proof.
  induction l as [|x l IH]; simpl; [done|].
  rewrite filter_cons, IH. unfold set_has.
  destruct (decide (f x ∈ allow)) as [Hin|Hin].
  - rewrite bool_decide_eq_true_2; [done|]. by apply elem_of_list_to_set.
  - rewrite bool_decide_eq_false_2; [done|]. by rewrite elem_of_list_to_set.
Qed.

(** With a non-empty allow-list of usernames the filtered students are
    the fetched students whose username is listed, in their fetched
    order, in a new array. *)
Lemma filteredStudents_contents (STUDENTS : list string)
    (h : gmap positive (list Student)) (a : positive) (all : list Student) :
  h !! a = Some all →
  result_of (filteredStudents STUDENTS (Some a) false) h
  = Some (filter (λ s, student_username s ∈ STUDENTS) all).
Proof.
  intros Ha. unfold result_of, filteredStudents, array_filter.
  rewrite alloc_lookup_new, (read_lookup _ _ _ Ha). f_equal.
  apply filter_set_has.
Qed.

(** Filtering the students leaves the fetched array as it was. *)
Lemma filteredStudents_keeps_input (STUDENTS : list string)
    (h : gmap positive (list Student)) (a : positive) (all : list Student) :
  h !! a = Some all →
  (filteredStudents STUDENTS (Some a) false h).2 !! a = Some all.
Proof.
  intros Ha. unfold filteredStudents, array_filter.
  by apply alloc_lookup_old.
Qed.

Section RosterFilterFacts.
Variable localeCompare : string → string → Z.

(** With an empty allow-list the array that is sorted is the fetched
    array itself, and it is the one returned. *)
Lemma filteredExercises_empty_allow_list_in_place
    (h : gmap positive (list Exercise)) (a : positive) (all : list Exercise) :
  h !! a = Some all →
  filteredExercises localeCompare [] (Some a) false h
  = (a, <[a := sort_by (by_exercise_name localeCompare) all]> h).
Proof.
  intros Ha. unfold filteredExercises, bind, ret, array_sort. simpl.
  by rewrite (read_lookup _ _ _ Ha).
Qed.

(** With a non-empty allow-list a new array is built and sorted; the
    fetched array keeps its contents and order. *)
Lemma filteredExercises_allow_list_keeps_input (EXERCISES : list string)
    (h : gmap positive (list Exercise)) (a : positive) (all : list Exercise) :
  EXERCISES ≠ [] → h !! a = Some all →
  (filteredExercises localeCompare EXERCISES (Some a) false h).2 !! a
  = Some all.
Proof.
  intros Hne Ha. destruct EXERCISES as [|e E]; [done|].
  unfold filteredExercises, bind, array_filter, array_sort. simpl.
  rewrite lookup_insert_ne, lookup_insert_ne; [done| |];
    intros Heq; pose proof (is_fresh (dom h)) as Hf;
    rewrite Heq in Hf; apply Hf, elem_of_dom; eauto.
Qed.

Lemma filteredExercises_contents (EXERCISES : list string)
    (h : gmap positive (list Exercise)) (a : positive) (all : list Exercise) :
  h !! a = Some all →
  result_of (filteredExercises localeCompare EXERCISES (Some a) false) h
  = Some (sort_by (by_exercise_name localeCompare)
            (if decide (EXERCISES = []) then all
             else filter (λ e, exercise_name e ∈ EXERCISES) all)).
Proof.
  intros Ha. unfold result_of. destruct EXERCISES as [|e E].
  - rewrite (filteredExercises_empty_allow_list_in_place _ _ _ Ha). simpl.
    by rewrite lookup_insert_eq.
  - unfold filteredExercises, bind, array_filter, array_sort. simpl.
    rewrite lookup_insert_eq. unfold read at 1.
    rewrite lookup_insert_eq. simpl.
    rewrite (read_lookup _ _ _ Ha).
    by rewrite <- (filter_set_has exercise_name (e :: E) all).
Qed.

Hypothesis localeCompare_total :
  ∀ x y, localeCompare x y ≤ 0 ∨ localeCompare y x ≤ 0.
Hypothesis localeCompare_trans :
  ∀ x y z, localeCompare x y ≤ 0 → localeCompare y z ≤ 0 →
           localeCompare x z ≤ 0.

(** C3. Once the exercises are fetched, the filtered exercise list holds
    every fetched exercise when the exercise allow-list is empty, and
    exactly the fetched exercises named in the allow-list when it is not;
    either way it is sorted ascending by exercise name under
    [localeCompare], taken to be a consistent comparator. *)
Theorem filteredExercises_spec (EXERCISES : list string)
    (h : gmap positive (list Exercise)) (a : positive) (all : list Exercise) :
  h !! a = Some all →
  ∃ out,
    result_of (filteredExercises localeCompare EXERCISES (Some a) false) h
    = Some out ∧
    (EXERCISES = [] → out ≡ₚ all) ∧
    (EXERCISES ≠ [] →
       out ≡ₚ filter (λ e, exercise_name e ∈ EXERCISES) all) ∧
    StronglySorted
      (λ x y, localeCompare (exercise_name x) (exercise_name y) ≤ 0) out.
Proof.
  intros Ha. eexists. split; [by apply filteredExercises_contents|].
  split; [|split].
  - intros ->. simpl. apply sort_by_perm.
  - intros Hne. rewrite decide_False by done. apply sort_by_perm.
  - apply (sort_by_sorted (by_exercise_name localeCompare)).
    + intros x y. apply localeCompare_total.
    + intros x y z. apply localeCompare_trans.
Qed.

End RosterFilterFacts.

(** The worked roster with the exercises restricted to [loops]. *)
Lemma filteredExercises_spec_witness :
  ∃ out,
    result_of
      (filteredExercises codeUnitCompare ["loops"] (Some 1%positive) false)
      exercises_store = Some out ∧
    (["loops"] = [] → out ≡ₚ [loops; arrays]) ∧
    (["loops"] ≠ [] →
       out ≡ₚ filter (λ e, exercise_name e ∈ ["loops"]) [loops; arrays]) ∧
    StronglySorted
      (λ x y, codeUnitCompare (exercise_name x) (exercise_name y) ≤ 0) out.
Proof.
  apply (filteredExercises_spec codeUnitCompare
           codeUnitCompare_total codeUnitCompare_trans
           ["loops"] exercises_store 1%positive [loops; arrays]).
  reflexivity.
Defined.

(** C1. With an empty allow-list of usernames the filtered student list
    is empty whatever was fetched: [studentsSet] has no member, so the
    filter keeps no student. *)
Theorem filteredStudents_empty_allow_list
    (h : gmap positive (list Student)) (a : positive) (all : list Student) :
  result_of (filteredStudents [] (Some a) false) (<[a := all]> h) = Some [].
Proof.
  rewrite (filteredStudents_contents [] _ a all) by apply lookup_insert_eq.
  f_equal. induction all as [|s all IH]; [done|].
  rewrite filter_cons_False; [done|]. apply not_elem_of_nil.
Qed.

(** On the worked roster the one fetched student is left out. *)
Example filteredStudents_drops_ann :
  result_of (filteredStudents [] (Some 1%positive) false) students_store
  = Some [] ∧ students_store !! 1%positive = Some [ann].
Proof. split; reflexivity. Qed.

(** C9. With an empty exercise allow-list, computing the filtered
    exercises reorders the fetched exercise array itself: fetched as
    [loops; arrays], it reads [arrays; loops] afterwards, and the array
    returned is that same array. *)
Theorem filteredExercises_reorders_fetched_array :
  exercises_store !! 1%positive = Some [loops; arrays] ∧
  (filteredExercises codeUnitCompare [] (Some 1%positive) false
     exercises_store).1 = 1%positive ∧
  (filteredExercises codeUnitCompare [] (Some 1%positive) false
     exercises_store).2 !! 1%positive = Some [arrays; loops].
Proof. repeat split; reflexivity. Qed.

(** ** Row Aggregator *)

Section RowAggregatorFacts.
Implicit Types (tableData : list TableRow) (row r : TableRow).

Lemma handleRowComputed_usernames tableData row :
  username <$> handleRowComputed tableData row
  = (filter (λ u, u ≠ username row) (username <$> tableData)
       ++ [username row])%list.
Proof.
  unfold handleRowComputed. rewrite fmap_app. f_equal.
  induction tableData as [|r t IH]; [done|].
  rewrite fmap_cons, !filter_cons. simpl.
  destruct (decide (username r ≠ username row)); by rewrite ?fmap_cons, IH.
Qed.

(** An upsert keeps the usernames distinct if they were. *)
Lemma handleRowComputed_NoDup tableData row :
  NoDup (username <$> tableData) →
  NoDup (username <$> handleRowComputed tableData row).
Proof.
  intros Hnd. rewrite handleRowComputed_usernames.
  apply NoDup_app. split; [by apply NoDup_filter|]. split.
  - intros u [Hu _]%list_elem_of_filter Hin.
    apply list_elem_of_singleton in Hin. done.
  - apply NoDup_singleton.
Qed.

(** Every value the row collection takes has one row per username at
    most. *)
Lemma reachable_NoDup tableData :
  reachable tableData → NoDup (username <$> tableData).
Proof.
  induction 1 as [|t row _ IH].
  - constructor.
  - by apply handleRowComputed_NoDup.
Qed.

Lemma filter_other_app_same tableData row :
  filter (λ r, username r ≠ username row) (tableData ++ [row])%list
  = filter (λ r, username r ≠ username row) tableData.
Proof.
  rewrite filter_app, filter_cons_False, filter_nil, app_nil_r; [done|].
  intros Hne. by apply Hne.
Qed.

(** C4. From any value the row collection can take, an upsert leaves at
    most one row per username, and the rows of other usernames are all
    still there, the same rows in the same order. *)
Theorem handleRowComputed_upsert tableData row :
  reachable tableData →
  NoDup (username <$> handleRowComputed tableData row) ∧
  (∀ r, r ∈ tableData → username r ≠ username row →
        r ∈ handleRowComputed tableData row) ∧
  filter (λ r, username r ≠ username row) (handleRowComputed tableData row)
  = filter (λ r, username r ≠ username row) tableData.
Proof.
  intros Hreach. split; [|split].
  - by apply handleRowComputed_NoDup, reachable_NoDup.
  - intros r Hin Hne. unfold handleRowComputed.
    apply elem_of_app. left. by apply list_elem_of_filter.
  - unfold handleRowComputed.
    by rewrite filter_other_app_same, list_filter_filter_l.
Qed.

(** C5. Upserting the same row twice in a row gives the same collection
    as upserting it once, and that collection has exactly one row with
    the row's username. *)
Theorem handleRowComputed_idempotent tableData row :
  handleRowComputed (handleRowComputed tableData row) row
  = handleRowComputed tableData row ∧
  length
    (filter (λ r, username r = username row)
       (handleRowComputed tableData row)) = 1%nat.
Proof.
  split.
  - unfold handleRowComputed at 1 3. f_equal.
    unfold handleRowComputed.
    by rewrite filter_other_app_same, list_filter_filter_l.
  - unfold handleRowComputed.
    rewrite filter_app, filter_cons_True, filter_nil by done.
    rewrite length_app. simpl.
    assert (filter (λ r, username r = username row)
              (filter (λ r, username r ≠ username row) tableData) = [])
      as ->; [|done].
    induction tableData as [|r t IH]; [done|].
    rewrite (filter_cons (λ r, username r ≠ username row)).
    destruct (decide (username r ≠ username row)); [|done].
    by rewrite filter_cons_False.
Qed.

End RowAggregatorFacts.

(** Ann's row upserted over a collection that already holds a row of
    hers and one of another student. *)
Lemma handleRowComputed_upsert_witness :
  NoDup (username <$> handleRowComputed two_rows ann_row) ∧
  (∀ r, r ∈ two_rows → username r ≠ username ann_row →
        r ∈ handleRowComputed two_rows ann_row) ∧
  filter (λ r, username r ≠ username ann_row)
    (handleRowComputed two_rows ann_row)
  = filter (λ r, username r ≠ username ann_row) two_rows.
Proof.
  apply (handleRowComputed_upsert two_rows ann_row).
  unfold two_rows. repeat constructor.
Defined.

(** ** Progress Resolver *)

(** The resolver's output, key by key: the last element of the sequence
    stored under that key, nothing for a key that is not there. *)
Lemma latestStatus_lookup (progress : gmap string (list StudentExercise))
    (name : string) :
  latestStatus (Some progress) false !! name = at_last <$> progress !! name.
Proof.
  unfold latestStatus. revert name.
  apply (map_fold_weak_ind
           (λ result m, ∀ name, result !! name = at_last <$> m !! name)).
  - intros name. by rewrite !lookup_empty.
  - intros k seq m result _ IH name.
    destruct (decide (k = name)) as [->|Hne].
    + by rewrite !lookup_insert_eq.
    + by rewrite !lookup_insert_ne, IH.
Qed.

Lemma at_last_nonempty {A} (l : list A) : l ≠ [] → ∃ x, at_last l = Some x.
Proof.
  unfold at_last. intros Hne.
  destruct (last l) as [x|] eqn:Hl; [by eexists|].
  by apply last_None in Hl.
Qed.

(** C2. For a mapping whose sequences are all non-empty, the resolver
    maps every exercise name of the mapping to the last element of its
    sequence and has no entry for any other name; while the fetch is
    loading or has no data its output is the empty mapping. *)
Theorem latestStatus_spec (progress : gmap string (list StudentExercise)) :
  (∀ name seq, progress !! name = Some seq → seq ≠ []) →
  (∀ name seq, progress !! name = Some seq →
     ∃ x, last seq = Some x ∧
          latestStatus (Some progress) false !! name = Some (Some x)) ∧
  (∀ name, progress !! name = None →
     latestStatus (Some progress) false !! name = None) ∧
  latestStatus (Some progress) true = ∅ ∧
  (∀ isLoading, latestStatus None isLoading = ∅).
Proof.
  intros Hne. repeat split.
  - intros name seq Hseq.
    destruct (at_last_nonempty seq) as [x Hx]; [by eapply Hne|].
    exists x. split; [done|].
    by rewrite latestStatus_lookup, Hseq, <- Hx.
  - intros name Hnone. by rewrite latestStatus_lookup, Hnone.
Qed.

(** Ann's submissions: the later of the two records for [loops] is the
    one kept. *)
Lemma latestStatus_spec_witness :
  latestStatus (Some ann_progress) false !! "loops"
  = Some (Some (submission "SUCCESSFUL")) ∧
  latestStatus (Some ann_progress) false !! "arrays" = None.
Proof.
  assert (∀ name seq, ann_progress !! name = Some seq → seq ≠ []) as Hne.
  { unfold ann_progress.
    intros name seq [_ <-]%lookup_singleton_Some. discriminate. }
  destruct (latestStatus_spec ann_progress Hne) as (Hlast & Habsent & _).
  split.
  - destruct (Hlast "loops" _ eq_refl) as (x & Hx & ->).
    simpl in Hx. by injection Hx as <-.
  - by apply Habsent.
Defined.

(** ** Status Presenter *)

(** The four symbols are pairwise different. *)
Lemma emoji_distinct :
  "✅" ≠ "❌" ∧ "✅" ≠ "⚠️" ∧ "❌" ≠ "⚠️" ∧
  "✅" ≠ "" ∧ "❌" ≠ "" ∧ "⚠️" ≠ "".
Proof. repeat split; discriminate. Qed.

(** C6. [getEmoji] is defined on every string and on [null] and
    [undefined]: the two spellings of success, of failure and of error
    give the success, failure and error symbols, and everything else,
    the empty string, [null], [undefined] and ["WHATEVER"] included,
    gives the blank symbol. *)
Theorem getEmoji_spec :
  getEmoji (Val "SUCCESSFUL") = "✅" ∧ getEmoji (Val "Completed") = "✅" ∧
  getEmoji (Val "UNSUCCESSFUL") = "❌" ∧ getEmoji (Val "Incomplete") = "❌" ∧
  getEmoji (Val "ERROR") = "⚠️" ∧ getEmoji (Val "Error") = "⚠️" ∧
  getEmoji (Val "") = "" ∧ getEmoji Null = "" ∧ getEmoji Undefined = "" ∧
  getEmoji (Val "WHATEVER") = "" ∧
  ∀ s : string,
    s ∉ ["SUCCESSFUL"; "Completed"; "UNSUCCESSFUL"; "Incomplete";
         "ERROR"; "Error"] →
    getEmoji (Val s) = "".
Proof.
  repeat (split; [reflexivity|]).
  intros s Hs. unfold getEmoji.
  repeat match goal with
  | |- context [String.eqb s ?k] =>
      destruct (String.eqb_spec s k) as [->|_];
        [exfalso; apply Hs; set_solver|]
  end.
  reflexivity.
Qed.

(** A status outside the vocabulary. *)
Lemma getEmoji_spec_witness : getEmoji (Val "successful") = "".
Proof.
  apply getEmoji_spec.
  intros Hin. repeat (apply elem_of_cons in Hin as [Hin|Hin]; [discriminate|]).
  by apply elem_of_nil in Hin.
Defined.

(** ** One table row *)

Section RowFacts.
Variable latest : gmap string (option StudentExercise).

Lemma record_set_lookup (o : gmap string (option string))
    (k v name : string) :
  record_set o k v !! name
  = if decide (k = name ∧ k ≠ "__proto__") then Some (Some v) else o !! name.
Proof.
  unfold record_set. destruct (String.eqb_spec k "__proto__") as [->|Hk].
  - rewrite decide_False; [done|]. by intros [_ ?].
  - destruct (decide (k = name)) as [->|Hne].
    + by rewrite lookup_insert_eq, decide_True.
    + rewrite lookup_insert_ne by done.
      rewrite decide_False; [done|]. by intros [? _].
Qed.

Lemma foldl_statuses_lookup (filtered : list Exercise)
    (acc : gmap string (option string)) (name : string) :
  foldl
    (λ statuses ex,
       record_set statuses (exercise_name ex)
         (rawStatus latest (exercise_name ex)))
    acc filtered !! name
  = if decide (name ∈ exercise_name <$> filtered ∧ name ≠ "__proto__")
    then Some (Some (rawStatus latest name))
    else acc !! name.
Proof.
  revert acc. induction filtered as [|ex l IH]; intros acc.
  - cbn [foldl]. case_decide as Hin; [|done].
    rewrite fmap_nil in Hin. destruct Hin as [Hin _].
    by apply elem_of_nil in Hin.
  - rewrite fmap_cons. cbn [foldl]. rewrite IH, record_set_lookup.
    destruct (decide (name ∈ exercise_name <$> l ∧ name ≠ "__proto__"))
      as [[Hin Hp]|Hout].
    + rewrite decide_True; [done|]. split; [|done]. by apply elem_of_cons; right.
    + destruct (decide (exercise_name ex = name ∧
                        exercise_name ex ≠ "__proto__")) as [[<- Hp]|Hne].
      * rewrite decide_True; [done|]. split; [|done]. apply elem_of_cons; by left.
      * rewrite decide_False; [done|].
        intros [[->|Hin]%elem_of_cons Hp]; [by apply Hne|by apply Hout].
Qed.

(** The statuses object has one property per filtered exercise not named
    [__proto__], holding that exercise's raw status, and no other
    property. *)
Lemma computeStatuses_lookup (filtered : list Exercise) (name : string) :
  computeStatuses latest filtered !! name
  = if decide (name ∈ exercise_name <$> filtered ∧ name ≠ "__proto__")
    then Some (Some (rawStatus latest name))
    else None.
Proof.
  unfold computeStatuses. by rewrite foldl_statuses_lookup, lookup_empty.
Qed.

(** No latest record, no status. *)
Lemma rawStatus_no_record (name : string) :
  map_get latest name = None → rawStatus latest name = "".
Proof. unfold rawStatus. by intros ->. Qed.

End RowFacts.




(** The worked roster's row as rendered: ann, a blank cell for [arrays],
    the success symbol for [loops]. *)
Example StudentProgressRow_cells_ann :
  StudentProgressRow_cells ann (Some ann_progress) false [arrays; loops]
  = ["ann"; ""; "✅"] ∧
  StudentProgressRow_effect ann (Some ann_progress) false [arrays; loops] []
  = [ann_row].
Proof. split; reflexivity. Qed.

(** ** Snapshot Exporter *)


Section ExporterFacts.
Context {proto : ObjectPrototype}.

(** A cell under a key the row has a property for: what the property
    holds, the empty string if it holds [undefined]. *)
Lemma csv_cell_own (o : gmap string (option string)) (k : string)
    (v : option string) :
  o !! k = Some v →
  to_text (nullish (record_get o k) (JsString "")) = default "" v.
Proof. unfold record_get. intros ->. by destruct v. Qed.



(** C8. With no aggregated row the exporter returns at once: no document
    is built and nothing is offered for download. *)
Theorem downloadCSV_no_rows (filtered : list Exercise) (now : Z) :
  downloadCSV [] filtered now = None.
Proof. reflexivity. Qed.


End ExporterFacts.


(** The worked roster's export, spelled out, with its artifact name. *)
Example downloadCSV_ann :
  downloadCSV [ann_row] [arrays; loops] 1700000000123
  = Some {| content := "Github Username,arrays,loops" ++ LF ++ "ann,,SUCCESSFUL";
            mime := "text/csv;charset=utf-8;";
            filename := "progress_1700000000.csv" |}.
Proof. reflexivity. Qed.

(** A username holding a comma goes into the document as it is. *)
Example downloadCSV_comma_username :
  content <$> downloadCSV [comma_row] [loops] 0
  = Some ("Github Username,loops" ++ LF ++ "ann,b,ERROR").
Proof. reflexivity. Qed.


(** A column named [constructor] or [__proto__], for a row without a
    status of that name, is not exported as the empty string the
    specification describes: the exporter writes out what
    [Object.prototype] holds there. *)
Example downloadCSV_inherited_cells :
  csv_row [{| exercise_name := "constructor" |}; proto_exercise] proto_row
  = ["ann"; "function Object() { [native code] }"; "[object Object]"] ∧
  spec_csv_row [{| exercise_name := "constructor" |}; proto_exercise] proto_row
  = ["ann"; ""; ""].
Proof. split; reflexivity. Qed.

(** * Further properties *)

(** ** Sorting again *)

Section SortAgain.
Context {A : Type}.
Variable cmp : A → A → Z.
Hypothesis cmp_total : ∀ x y, cmp x y ≤ 0 ∨ cmp y x ≤ 0.
Hypothesis cmp_trans : ∀ x y z, cmp x y ≤ 0 → cmp y z ≤ 0 → cmp x z ≤ 0.

Lemma insert_by_front x l :
  Forall (λ y, cmp x y ≤ 0) l → insert_by cmp x l = x :: l.
Proof.
  intros Hall. destruct l as [|y l]; [done|]. simpl.
  apply Forall_cons in Hall as [Hxy _].
  apply Z.leb_le in Hxy. by rewrite Hxy.
Qed.

(** A sorted array is left as it is. *)
Lemma sort_by_sorted_id l :
  StronglySorted (λ a b, cmp a b ≤ 0) l → sort_by cmp l = l.
Proof.
  induction l as [|x l IH]; [done|].
  intros [Hall Hl]%StronglySorted_cons. simpl.
  rewrite IH by done. by apply insert_by_front.
Qed.

Lemma sort_by_idem l : sort_by cmp (sort_by cmp l) = sort_by cmp l.
Proof. apply sort_by_sorted_id. by apply sort_by_sorted. Qed.

End SortAgain.

(** ** Roster Filter, continued *)

(** The students fetched and the allow-list given, the filtered students
    are the fetched ones whose username is listed, in the order fetched;
    they are in a new array, and every array there was keeps its
    contents, the fetched one included. *)
Theorem filteredStudents_allow_list (STUDENTS : list string)
    (h : gmap positive (list Student)) (a : positive) (all : list Student) :
  h !! a = Some all →
  (filteredStudents STUDENTS (Some a) false h).1 ≠ a ∧
  result_of (filteredStudents STUDENTS (Some a) false) h
  = Some (filter (λ s, student_username s ∈ STUDENTS) all) ∧
  ∀ b l, h !! b = Some l →
         (filteredStudents STUDENTS (Some a) false h).2 !! b = Some l.
Proof.
  intros Ha. split; [|split].
  - unfold filteredStudents, array_filter. intros Heq.
    pose proof (alloc_fresh (A:=Student)
                  (List.filter
                     (λ student,
                        set_has (list_to_set STUDENTS)
                          (student_username student))
                     (read h a)) h) as Hf.
    rewrite Heq in Hf. congruence.
  - by apply filteredStudents_contents.
  - intros b l Hb. unfold filteredStudents, array_filter.
    by apply alloc_lookup_old.
Qed.

Lemma filteredStudents_allow_list_witness :
  (filteredStudents ["ann"] (Some 1%positive) false students_store).1
  ≠ 1%positive ∧
  result_of (filteredStudents ["ann"] (Some 1%positive) false) students_store
  = Some (filter (λ s, student_username s ∈ ["ann"]) [ann]) ∧
  ∀ b l, students_store !! b = Some l →
         (filteredStudents ["ann"] (Some 1%positive) false students_store).2
           !! b = Some l.
Proof.
  apply (filteredStudents_allow_list ["ann"] students_store 1%positive [ann]).
  reflexivity.
Defined.

Section RosterFilterMore.
Variable localeCompare : string → string → Z.

(** With a non-empty exercise allow-list the array returned is a new one,
    and every array there was keeps its contents and order, the fetched
    one included. *)
Theorem filteredExercises_allow_list_fresh (EXERCISES : list string)
    (h : gmap positive (list Exercise)) (a : positive) (all : list Exercise) :
  EXERCISES ≠ [] → h !! a = Some all →
  (filteredExercises localeCompare EXERCISES (Some a) false h).1 ≠ a ∧
  ∀ b l, h !! b = Some l →
         (filteredExercises localeCompare EXERCISES (Some a) false h).2 !! b
         = Some l.
Proof.
  intros Hne Ha. destruct EXERCISES as [|e E]; [done|].
  unfold filteredExercises, bind, array_filter, array_sort. simpl.
  pose proof (is_fresh (dom h)) as Hf.
  split.
  - intros Heq. rewrite Heq in Hf. apply Hf, elem_of_dom. eauto.
  - intros b l Hb.
    assert (fresh (dom h) ≠ b) as Hfb.
    { intros Heq. rewrite Heq in Hf. apply Hf, elem_of_dom. eauto. }
    by rewrite !lookup_insert_ne.
Qed.

(** While the fetch is loading or has brought nothing, either filter
    returns a new, empty array and leaves every array there was. *)
Theorem roster_filter_not_ready (EXERCISES STUDENTS : list string)
    (he : gmap positive (list Exercise)) (hs : gmap positive (list Student))
    (allExercises allStudents : option positive)
    (isExercisesLoading isStudentsLoading : bool) :
  allExercises = None ∨ isExercisesLoading = true →
  allStudents = None ∨ isStudentsLoading = true →
  (result_of
     (filteredExercises localeCompare EXERCISES allExercises
        isExercisesLoading) he = Some [] ∧
   ∀ b l, he !! b = Some l →
          (filteredExercises localeCompare EXERCISES allExercises
             isExercisesLoading he).2 !! b = Some l) ∧
  (result_of (filteredStudents STUDENTS allStudents isStudentsLoading) hs
   = Some [] ∧
   ∀ b l, hs !! b = Some l →
          (filteredStudents STUDENTS allStudents isStudentsLoading hs).2 !! b
          = Some l).
Proof.
  intros He Hs. split.
  - assert (filteredExercises localeCompare EXERCISES allExercises
              isExercisesLoading = alloc []) as ->.
    { unfold filteredExercises. destruct He as [-> | ->]; [done|].
      by destruct allExercises. }
    split; [apply alloc_lookup_new|]. intros b l. apply alloc_lookup_old.
  - assert (filteredStudents STUDENTS allStudents isStudentsLoading
            = alloc []) as ->.
    { unfold filteredStudents. destruct Hs as [-> | ->]; [done|].
      by destruct allStudents. }
    split; [apply alloc_lookup_new|]. intros b l. apply alloc_lookup_old.
Qed.

Hypothesis localeCompare_total :
  ∀ x y, localeCompare x y ≤ 0 ∨ localeCompare y x ≤ 0.
Hypothesis localeCompare_trans :
  ∀ x y z, localeCompare x y ≤ 0 → localeCompare y z ≤ 0 →
           localeCompare x z ≤ 0.

(** Computing the filtered exercises a second time, in the store the
    first computation left, gives a list with the same contents; with an
    empty allow-list it is the same array again and the store does not
    change any more. *)
Theorem filteredExercises_recompute (EXERCISES : list string)
    (h : gmap positive (list Exercise)) (a : positive) (all : list Exercise) :
  h !! a = Some all →
  result_of (filteredExercises localeCompare EXERCISES (Some a) false)
    (filteredExercises localeCompare EXERCISES (Some a) false h).2
  = result_of (filteredExercises localeCompare EXERCISES (Some a) false) h ∧
  (EXERCISES = [] →
   filteredExercises localeCompare EXERCISES (Some a) false
     (filteredExercises localeCompare EXERCISES (Some a) false h).2
   = filteredExercises localeCompare EXERCISES (Some a) false h).
Proof.
  intros Ha.
  assert (∀ l, sort_by (by_exercise_name localeCompare)
                 (sort_by (by_exercise_name localeCompare) l)
               = sort_by (by_exercise_name localeCompare) l) as Hidem.
  { intros l. apply sort_by_idem.
    - intros x y. apply localeCompare_total.
    - intros x y z. apply localeCompare_trans. }
  destruct (decide (EXERCISES = [])) as [->|Hne].
  - pose proof (filteredExercises_empty_allow_list_in_place
                  localeCompare h a all Ha) as E1.
    assert (filteredExercises localeCompare [] (Some a) false
              (<[a:=sort_by (by_exercise_name localeCompare) all]> h)
            = (a, <[a:=sort_by (by_exercise_name localeCompare) all]> h))
      as E2.
    { rewrite (filteredExercises_empty_allow_list_in_place localeCompare
                 (<[a:=sort_by (by_exercise_name localeCompare) all]> h) a
                 (sort_by (by_exercise_name localeCompare) all))
        by apply lookup_insert_eq.
      by rewrite Hidem, insert_insert_eq. }
    unfold result_of. rewrite E1. cbn [fst snd]. by rewrite E2.
  - split; [|done].
    rewrite (filteredExercises_contents localeCompare EXERCISES _ a all).
    + by rewrite (filteredExercises_contents localeCompare EXERCISES h a all).
    + by apply filteredExercises_allow_list_keeps_input.
Qed.

End RosterFilterMore.

Lemma filteredExercises_allow_list_fresh_witness :
  (filteredExercises codeUnitCompare ["loops"] (Some 1%positive) false
     exercises_store).1 ≠ 1%positive ∧
  ∀ b l, exercises_store !! b = Some l →
         (filteredExercises codeUnitCompare ["loops"] (Some 1%positive) false
            exercises_store).2 !! b = Some l.
Proof.
  apply (filteredExercises_allow_list_fresh codeUnitCompare ["loops"]
           exercises_store 1%positive [loops; arrays]).
  - discriminate.
  - reflexivity.
Defined.

Lemma roster_filter_not_ready_witness :
  (result_of
     (filteredExercises codeUnitCompare [] (Some 1%positive) true)
     exercises_store = Some [] ∧
   ∀ b l, exercises_store !! b = Some l →
          (filteredExercises codeUnitCompare [] (Some 1%positive) true
             exercises_store).2 !! b = Some l) ∧
  (result_of (filteredStudents ["ann"] None false) students_store = Some [] ∧
   ∀ b l, students_store !! b = Some l →
          (filteredStudents ["ann"] None false students_store).2 !! b
          = Some l).
Proof.
  apply (roster_filter_not_ready codeUnitCompare [] ["ann"]
           exercises_store students_store (Some 1%positive) None true false).
  - right. reflexivity.
  - left. reflexivity.
Defined.

Lemma filteredExercises_recompute_witness :
  result_of (filteredExercises codeUnitCompare [] (Some 1%positive) false)
    (filteredExercises codeUnitCompare [] (Some 1%positive) false
       exercises_store).2
  = result_of (filteredExercises codeUnitCompare [] (Some 1%positive) false)
      exercises_store ∧
  (([] : list string) = [] →
   filteredExercises codeUnitCompare [] (Some 1%positive) false
     (filteredExercises codeUnitCompare [] (Some 1%positive) false
        exercises_store).2
   = filteredExercises codeUnitCompare [] (Some 1%positive) false
       exercises_store).
Proof.
  apply (filteredExercises_recompute codeUnitCompare
           codeUnitCompare_total codeUnitCompare_trans
           [] exercises_store 1%positive [loops; arrays]).
  reflexivity.
Defined.

(** ** Row Aggregator, continued *)

Section RowAggregatorMore.
Implicit Types (tableData rows : list TableRow) (row r : TableRow).

(** After an upsert the upserted row is the last of the collection, and
    no other row carries its username: whatever was stored under that
    username has been replaced. *)
Theorem handleRowComputed_replaces tableData row :
  last (handleRowComputed tableData row) = Some row ∧
  ∀ r, r ∈ handleRowComputed tableData row →
       username r = username row → r = row.
Proof.
  unfold handleRowComputed. split.
  - apply last_snoc.
  - intros r [Hin|Hin]%elem_of_app Heq.
    + apply list_elem_of_filter in Hin as [Hne _]. done.
    + by apply list_elem_of_singleton in Hin.
Qed.

Lemma filter_other_length tableData (u : string) :
  NoDup (username <$> tableData) →
  (length (filter (λ r, username r ≠ u) tableData)
   + (if decide (u ∈ username <$> tableData) then 1 else 0)
   = length tableData)%nat.
Proof.
  induction tableData as [|r t IH]; [done|].
  rewrite fmap_cons. intros [Hr Hnd]%NoDup_cons.
  specialize (IH Hnd). rewrite filter_cons.
  destruct (decide (username r ≠ u)) as [Hne|Heq].
  - cbn [length].
    destruct (decide (u ∈ username <$> t)) as [Hin|Hin].
    + rewrite decide_True by (by apply elem_of_cons; right). lia.
    + rewrite decide_False; [lia|].
      intros [?|?]%elem_of_cons; congruence.
  - assert (username r = u) as <- by (by destruct (decide (username r = u))).
    rewrite decide_False in IH by done.
    rewrite decide_True by (apply elem_of_cons; by left).
    cbn [length]. lia.
Qed.

(** From any value the row collection can take, upserting a row for a
    username already present keeps the number of rows, and upserting one
    for a new username adds exactly one row. *)
Theorem handleRowComputed_length tableData row :
  reachable tableData →
  length (handleRowComputed tableData row)
  = if decide (username row ∈ username <$> tableData)
    then length tableData
    else S (length tableData).
Proof.
  intros Hnd%reachable_NoDup.
  pose proof (filter_other_length tableData (username row) Hnd) as Hlen.
  unfold handleRowComputed. rewrite length_app. cbn [length].
  destruct (decide (username row ∈ username <$> tableData)); lia.
Qed.

(** Upserts of two rows with different usernames can come in either
    order: the collections hold the same rows. *)
Theorem handleRowComputed_commute tableData (r1 r2 : TableRow) :
  username r1 ≠ username r2 →
  handleRowComputed (handleRowComputed tableData r1) r2
  ≡ₚ handleRowComputed (handleRowComputed tableData r2) r1.
Proof.
  intros Hne. unfold handleRowComputed.
  rewrite !filter_app, !list_filter_filter.
  rewrite (filter_cons_True _ r1), (filter_cons_True _ r2), !filter_nil
    by done.
  rewrite <- !(assoc_L (++)).
  assert (filter (λ r, username r ≠ username r2 ∧ username r ≠ username r1)
            tableData
          = filter (λ r, username r ≠ username r1 ∧ username r ≠ username r2)
              tableData) as ->.
  { apply list_filter_iff. intros r. tauto. }
  apply Permutation_app_head. apply Permutation_swap.
Qed.

Lemma foldl_upsert_reachable tableData rows :
  reachable tableData → reachable (foldl handleRowComputed tableData rows).
Proof.
  revert tableData. induction rows as [|x rows IH]; intros t Ht; [done|].
  simpl. apply IH. by constructor.
Qed.

Lemma foldl_upsert_elem_of tableData rows r :
  r ∈ foldl handleRowComputed tableData rows → r ∈ tableData ∨ r ∈ rows.
Proof.
  revert tableData. induction rows as [|x rows IH]; intros t Hin; [by left|].
  simpl in Hin. apply IH in Hin as [Hin|Hin].
  - unfold handleRowComputed in Hin. apply elem_of_app in Hin as [Hin|Hin].
    + apply list_elem_of_filter in Hin as [_ Hin]. by left.
    + apply list_elem_of_singleton in Hin as ->. right. by left.
  - right. by right.
Qed.

(** Starting from the empty collection, after any sequence of upserts
    the collection holds, of the rows handed in, exactly those that no
    later row of the same username followed: the last row computed for
    a username is the one kept. *)
Theorem upserts_last_wins rows r :
  r ∈ foldl handleRowComputed [] rows ↔
  ∃ pre post,
    rows = (pre ++ r :: post)%list ∧
    Forall (λ r', username r' ≠ username r) post.
Proof.
  induction rows as [|x rows IH] using rev_ind.
  - split.
    + intros Hin. by apply elem_of_nil in Hin.
    + intros (pre & post & Heq & _). by destruct pre.
  - rewrite foldl_app. cbn [foldl]. unfold handleRowComputed at 1.
    rewrite elem_of_app, list_elem_of_filter, list_elem_of_singleton, IH.
    split.
    + intros [[Hne (pre & post & -> & Hpost)] | ->].
      * exists pre, (post ++ [x])%list. split.
        -- by rewrite <- (assoc_L (++)).
        -- apply Forall_app. split; [done|].
           apply Forall_singleton. congruence.
      * exists rows, []. split; [done|constructor].
    + intros (pre & post & Heq & Hpost).
      destruct post as [|y post _] using rev_ind.
      * apply app_inj_tail in Heq as [_ ->]. by right.
      * rewrite app_comm_cons, (assoc_L (++)) in Heq.
        apply app_inj_tail in Heq as [-> ->].
        apply Forall_app in Hpost as [Hpost Hy].
        rewrite Forall_singleton in Hy.
        left. split; [congruence|]. by exists pre, post.
Qed.

(** Starting from the empty collection, if every row handed in carries a
    username from a given list, the collection never has more rows than
    that list has entries. *)
Theorem row_count_bounded rows (us : list string) :
  (∀ r, r ∈ rows → username r ∈ us) →
  (length (foldl handleRowComputed [] rows) ≤ length us)%nat.
Proof.
  intros Hus.
  rewrite <- (length_fmap username).
  apply submseteq_length, NoDup_submseteq.
  - apply reachable_NoDup, foldl_upsert_reachable. constructor.
  - intros u (r & -> & Hin)%list_elem_of_fmap.
    apply foldl_upsert_elem_of in Hin as [Hin|Hin].
    + by apply elem_of_nil in Hin.
    + by apply Hus.
Qed.

End RowAggregatorMore.

Lemma handleRowComputed_length_witness :
  length (handleRowComputed two_rows ann_row) = length two_rows ∧
  length (handleRowComputed [] ann_row) = S (length (@nil TableRow)).
Proof.
  split.
  - rewrite (handleRowComputed_length two_rows ann_row).
    + reflexivity.
    + unfold two_rows. repeat constructor.
  - rewrite (handleRowComputed_length [] ann_row).
    + reflexivity.
    + constructor.
Defined.

Lemma handleRowComputed_commute_witness :
  handleRowComputed (handleRowComputed [stale_ann_row] ann_row) bob_row
  ≡ₚ handleRowComputed (handleRowComputed [stale_ann_row] bob_row) ann_row.
Proof.
  apply (handleRowComputed_commute [stale_ann_row] ann_row bob_row).
  discriminate.
Defined.

Lemma row_count_bounded_witness :
  (length (foldl handleRowComputed [] [stale_ann_row; bob_row; ann_row])
   ≤ length ["ann"; "bob"])%nat.
Proof.
  apply (row_count_bounded [stale_ann_row; bob_row; ann_row] ["ann"; "bob"]).
  intros r Hin.
  repeat (apply elem_of_cons in Hin as [-> | Hin];
          [vm_compute; repeat constructor|]).
  by apply elem_of_nil in Hin.
Defined.

(** ** Strings: separators and pieces *)

Lemma append_String (a : ascii) (s t : string) :
  String a s ++ t = String a (s ++ t).
Proof. reflexivity. Qed.

Lemma append_chars (s t : string) :
  list_ascii_of_string (s ++ t)
  = (list_ascii_of_string s ++ list_ascii_of_string t)%list.
Proof.
  induction s as [|a s IH]; [done|].
  rewrite append_String. cbn [list_ascii_of_string]. by rewrite IH.
Qed.

(** A common ending can be taken off both sides. *)
Lemma append_inv_tail (s1 s2 t : string) : s1 ++ t = s2 ++ t → s1 = s2.
Proof.
  intros Heq.
  rewrite <- (string_of_list_ascii_of_string s1),
          <- (string_of_list_ascii_of_string s2).
  f_equal. apply (app_inv_tail (list_ascii_of_string t)).
  by rewrite <- !append_chars, Heq.
Qed.

Lemma has_char_append (c : ascii) (s t : string) :
  has_char c (s ++ t) = (has_char c s || has_char c t)%bool.
Proof.
  induction s as [|a s IH]; [done|].
  rewrite append_String. cbn [has_char]. by rewrite IH, orb_assoc.
Qed.

(** A string without the separator is a single piece. *)
Lemma split_on_piece (c : ascii) (s : string) :
  has_char c s = false → split_on c s = [s].
Proof.
  induction s as [|a s IH]; [done|].
  cbn [has_char split_on]. intros [Ha Hs]%orb_false_elim.
  by rewrite Ha, IH.
Qed.

(** The first piece ends at the first separator. *)
Lemma split_on_append (c : ascii) (s rest : string) :
  has_char c s = false →
  split_on c (s ++ String c rest) = s :: split_on c rest.
Proof.
  induction s as [|a s IH].
  - intros _. change ("" ++ String c rest) with (String c rest).
    cbn [split_on]. by rewrite Ascii.eqb_refl.
  - cbn [has_char]. intros [Ha Hs]%orb_false_elim.
    rewrite append_String. cbn [split_on]. by rewrite Ha, IH.
Qed.

Lemma join_cons_sep (c : ascii) (x y : string) (l : list string) :
  join (String c "") (x :: y :: l)
  = x ++ String c (join (String c "") (y :: l)).
Proof. reflexivity. Qed.

(** Joining pieces that are free of the separator and splitting again
    gives the pieces back. *)
Lemma split_on_join (c : ascii) (l : list string) :
  l ≠ [] → Forall (λ s, has_char c s = false) l →
  split_on c (join (String c "") l) = l.
Proof.
  induction l as [|x l IH]; [done|]. intros _ [Hx Hl]%Forall_cons.
  destruct l as [|y l].
  - by apply split_on_piece.
  - rewrite join_cons_sep, split_on_append by done.
    by rewrite IH.
Qed.

(** A character other than the separator occurs in the joined string
    only if it occurs in a piece. *)
Lemma has_char_join (c k : ascii) (l : list string) :
  Ascii.eqb k c = false →
  Forall (λ s, has_char c s = false) l →
  has_char c (join (String k "") l) = false.
Proof.
  intros Hk. induction l as [|x l IH]; [done|].
  intros [Hx Hl]%Forall_cons. destruct l as [|y l]; [done|].
  rewrite join_cons_sep, has_char_append. cbn [has_char].
  by rewrite Hx, Hk, IH.
Qed.

(** ** Status Presenter, continued *)

(** [getEmoji] returns one of four symbols, and a symbol other than the
    blank one for exactly the six spellings of the vocabulary: any other
    capitalisation is blank. *)
Theorem getEmoji_vocabulary :
  (∀ st, getEmoji st ∈ ["✅"; "❌"; "⚠️"; ""]) ∧
  (∀ s : string,
     getEmoji (Val s) ≠ "" ↔
     s ∈ ["SUCCESSFUL"; "Completed"; "UNSUCCESSFUL"; "Incomplete";
          "ERROR"; "Error"]).
Proof.
  split.
  - intros [| |s]; unfold getEmoji;
      repeat match goal with
      | |- context [String.eqb s ?k] => destruct (String.eqb s k)
      end; cbn [orb]; set_solver.
  - intros s. split.
    + unfold getEmoji.
      repeat match goal with
      | |- context [String.eqb s ?k] =>
          destruct (String.eqb_spec s k) as [->|_]; [intros _; set_solver|]
      end.
      cbn [orb]. done.
    + intros Hin.
      repeat (apply elem_of_cons in Hin as [-> | Hin]; [discriminate|]).
      by apply elem_of_nil in Hin.
Qed.

(** ** One table row, continued *)

(** What the exporter reads back from a statuses object under the
    columns it was built for, none of them named [__proto__]: the raw
    statuses, whatever [Object.prototype] holds. *)
Lemma csv_row_computed {proto : ObjectPrototype}
    (latest : gmap string (option StudentExercise))
    (filtered : list Exercise) (u : string) :
  Forall (λ ex, exercise_name ex ≠ "__proto__") filtered →
  csv_row filtered
    {| username := u; statuses := computeStatuses latest filtered |}
  = u :: map (λ ex, rawStatus latest (exercise_name ex)) filtered.
Proof.
  intros Hcols. unfold csv_row. cbn [username statuses]. f_equal.
  apply map_ext_in. intros ex Hin%list_elem_of_In.
  rewrite Forall_forall in Hcols.
  apply (csv_cell_own _ _ (Some (rawStatus latest (exercise_name ex)))).
  rewrite computeStatuses_lookup, decide_True; [done|].
  split; [by apply list_elem_of_fmap_2|by apply Hcols].
Qed.

(** The raw status of an exercise is the status of the last record of
    its sequence, whatever came before it, and the empty string if that
    record has no progress object or the object no status. *)
Theorem rawStatus_last_record
    (progress : gmap string (list StudentExercise)) (name : string)
    (earlier : list StudentExercise) (record : StudentExercise) :
  progress !! name = Some (earlier ++ [record])%list →
  rawStatus (latestStatus (Some progress) false) name
  = match exerciseProgress record with
    | Some {| status := Some s |} => s
    | _ => ""
    end.
Proof.
  intros Hseq. unfold rawStatus, map_get.
  rewrite latestStatus_lookup, Hseq. cbn [fmap option_fmap option_map].
  unfold at_last. rewrite last_snoc.
  by destruct record as [[[[s|]]|]].
Qed.

Lemma rawStatus_last_record_witness :
  rawStatus (latestStatus (Some ann_progress) false) "loops" = "SUCCESSFUL".
Proof.
  apply (rawStatus_last_record ann_progress "loops"
           [submission "UNSUCCESSFUL"] (submission "SUCCESSFUL")).
  reflexivity.
Defined.

(** Once a student's fetch is over, and if no filtered exercise is
    named [__proto__], the row handed to the aggregator and the row on
    screen agree: exported under the same columns, the row's cells are
    the username and the raw statuses, and each cell on screen is the
    symbol of the exported cell in the same place. *)
Theorem exported_cells_match_rendered {proto : ObjectPrototype}
    (student : Student)
    (studentProgress : option (gmap string (list StudentExercise)))
    (filtered : list Exercise) (tableData : list TableRow) :
  Forall (λ ex, exercise_name ex ≠ "__proto__") filtered →
  ∃ row,
    StudentProgressRow_effect student studentProgress false filtered tableData
    = handleRowComputed tableData row ∧
    csv_row filtered row
    = student_username student ::
      map (λ ex, rawStatus (latestStatus studentProgress false)
                   (exercise_name ex)) filtered ∧
    StudentProgressRow_cells student studentProgress false filtered
    = student_username student ::
      map (λ cell, getEmoji (Val cell)) (tail (csv_row filtered row)).
Proof.
  intros Hcols. eexists. split; [reflexivity|].
  rewrite csv_row_computed by done.
  split; [done|].
  unfold StudentProgressRow_cells. cbn [tail]. by rewrite map_map.
Qed.

Lemma exported_cells_match_rendered_witness :
  ∃ row,
    StudentProgressRow_effect ann (Some ann_progress) false [arrays; loops] []
    = handleRowComputed [] row ∧
    csv_row [arrays; loops] row
    = "ann" ::
      map (λ ex, rawStatus (latestStatus (Some ann_progress) false)
                   (exercise_name ex)) [arrays; loops] ∧
    StudentProgressRow_cells ann (Some ann_progress) false [arrays; loops]
    = "ann" ::
      map (λ cell, getEmoji (Val cell)) (tail (csv_row [arrays; loops] row)).
Proof.
  apply (exported_cells_match_rendered ann (Some ann_progress)
           [arrays; loops] []).
  repeat constructor; discriminate.
Defined.

(** With a column named [__proto__] the two part: the screen shows the
    symbol of the student's status, the export what [Object.prototype]
    prints as. *)
Example exported_proto_cell_differs :
  StudentProgressRow_cells ann
    (Some {[ "__proto__" := [submission "SUCCESSFUL"] ]}) false
    [proto_exercise] = ["ann"; "✅"] ∧
  StudentProgressRow_effect ann
    (Some {[ "__proto__" := [submission "SUCCESSFUL"] ]}) false
    [proto_exercise] [] = [proto_row] ∧
  csv_row [proto_exercise] proto_row = ["ann"; "[object Object]"].
Proof. repeat split; reflexivity. Qed.

(** A fetch that ended without data gives the same row as one that
    brought an empty mapping, and every cell on screen is blank; if no
    filtered exercise is named [__proto__], every cell the row exports
    under those exercises is the empty string. *)
Theorem StudentProgressRow_no_data {proto : ObjectPrototype}
    (student : Student)
    (filtered : list Exercise) (tableData : list TableRow) :
  StudentProgressRow_effect student None false filtered tableData
  = StudentProgressRow_effect student (Some ∅) false filtered tableData ∧
  StudentProgressRow_cells student None false filtered
  = student_username student :: map (λ _, "") filtered ∧
  ∃ row,
    StudentProgressRow_effect student None false filtered tableData
    = handleRowComputed tableData row ∧
    (Forall (λ ex, exercise_name ex ≠ "__proto__") filtered →
     csv_row filtered row
     = student_username student :: map (λ _, "") filtered).
Proof.
  assert (latestStatus (Some ∅) false = ∅) as Hempty.
  { unfold latestStatus. apply map_fold_empty. }
  assert (∀ name, rawStatus ∅ name = "") as Hraw.
  { intros name. apply rawStatus_no_record. unfold map_get.
    by rewrite lookup_empty. }
  split; [|split].
  - unfold StudentProgressRow_effect. by rewrite Hempty.
  - unfold StudentProgressRow_cells. cbn [latestStatus].
    by rewrite (map_ext _ (λ _, "")) by (intros ex; by rewrite Hraw).
  - eexists. split; [reflexivity|]. intros Hcols.
    rewrite csv_row_computed by done.
    cbn [latestStatus].
    by rewrite (map_ext _ (λ _, "")) by (intros ex; by rewrite Hraw).
Qed.

Lemma StudentProgressRow_no_data_witness :
  ∃ row,
    StudentProgressRow_effect ann None false [arrays; loops] []
    = handleRowComputed [] row ∧
    csv_row [arrays; loops] row = "ann" :: map (λ _, "") [arrays; loops].
Proof.
  destruct (StudentProgressRow_no_data ann [arrays; loops] [])
    as (_ & _ & row & Heff & Hcsv).
  exists row. split; [exact Heff|].
  apply Hcsv. repeat constructor; discriminate.
Defined.

(** ** Snapshot Exporter, continued *)

(** Two exports of the same table carry the same document; their file
    names are equal exactly when the two moments fall in the same whole
    second. *)
Theorem downloadCSV_filename {proto : ObjectPrototype}
    (tableData : list TableRow)
    (filtered : list Exercise) (now1 now2 : Z) (d1 d2 : Download) :
  downloadCSV tableData filtered now1 = Some d1 →
  downloadCSV tableData filtered now2 = Some d2 →
  content d1 = content d2 ∧
  (filename d1 = filename d2 ↔ now1 / 1000 = now2 / 1000).
Proof.
  unfold downloadCSV. destruct (Nat.eqb (length tableData) 0); [done|].
  intros [= <-] [= <-]. cbn [content filename]. split; [done|]. split.
  - intros Heq. apply (inj (String.app "progress_")) in Heq.
    apply append_inv_tail in Heq. by apply (inj pretty) in Heq.
  - by intros ->.
Qed.

Lemma downloadCSV_filename_witness :
  ∃ d1 d2,
    downloadCSV [ann_row] [arrays; loops] 1700000000123 = Some d1 ∧
    downloadCSV [ann_row] [arrays; loops] 1700000000999 = Some d2 ∧
    content d1 = content d2 ∧
    (filename d1 = filename d2 ↔ 1700000000123 / 1000 = 1700000000999 / 1000).
Proof.
  eexists _, _. split; [reflexivity|]. split; [reflexivity|].
  apply (downloadCSV_filename [ann_row] [arrays; loops]
           1700000000123 1700000000999); reflexivity.
Defined.

(** Lines of plain cells, joined the exporter's way, read back as they
    were. *)
Lemma parse_csv_join (table : list (list string)) :
  table ≠ [] →
  Forall (λ cells, cells ≠ []) table →
  Forall (Forall (λ cell, plain_cell cell = true)) table →
  parse_csv (join LF (map (join ",") table)) = table.
Proof.
  intros Hne Hcons Hplain.
  assert (Forall (Forall (λ cell, has_char COMMA cell = false)) table)
    as Hcomma.
  { eapply Forall_impl; [exact Hplain|]. intros cells Hc.
    eapply Forall_impl; [exact Hc|]. intros cell. unfold plain_cell.
    intros [H1 _]%andb_true_iff. by apply negb_true_iff in H1. }
  assert (Forall (Forall (λ cell, has_char (ascii_of_nat 10) cell = false))
            table) as Hlf.
  { eapply Forall_impl; [exact Hplain|]. intros cells Hc.
    eapply Forall_impl; [exact Hc|]. intros cell. unfold plain_cell.
    intros [_ H2]%andb_true_iff. by apply negb_true_iff in H2. }
  unfold parse_csv.
  change LF with (String (ascii_of_nat 10) "").
  rewrite split_on_join.
  - clear Hne Hplain Hlf.
    induction table as [|cells table IH]; [done|].
    apply Forall_cons in Hcons as [Hne Hcons].
    apply Forall_cons in Hcomma as [Hc Hcomma].
    cbn [map]. rewrite IH by done. f_equal.
    change "," with (String COMMA ""). by apply split_on_join.
  - by destruct table.
  - apply Forall_map. eapply Forall_impl; [exact Hlf|].
    intros cells Hc. change "," with (String COMMA "").
    by apply has_char_join.
Qed.

(** When no cell of the table holds a comma or a line feed, splitting
    the exported document at the line feeds and each line at the commas
    gives back the header cells followed by each row's cells. *)
Theorem downloadCSV_parse {proto : ObjectPrototype}
    (tableData : list TableRow)
    (filtered : list Exercise) (now : Z) (d : Download) :
  downloadCSV tableData filtered now = Some d →
  Forall (Forall (λ cell, plain_cell cell = true))
    (csv_headers filtered :: map (csv_row filtered) tableData) →
  parse_csv (content d)
  = csv_headers filtered :: map (csv_row filtered) tableData.
Proof.
  unfold downloadCSV. destruct tableData as [|row rows]; [done|].
  cbn [length Nat.eqb]. intros [= <-] Hplain. cbn [content].
  change (parse_csv
            (join LF
               (map (join ",")
                  (csv_headers filtered ::
                   map (csv_row filtered) (row :: rows))))
          = csv_headers filtered :: map (csv_row filtered) (row :: rows)).
  apply parse_csv_join; [done| |done].
  apply Forall_cons. split; [done|].
  apply Forall_map, Forall_forall. intros r _. done.
Qed.

Lemma downloadCSV_parse_witness :
  ∃ d,
    downloadCSV [ann_row] [arrays; loops] 1700000000123 = Some d ∧
    parse_csv (content d)
    = [["Github Username"; "arrays"; "loops"]; ["ann"; ""; "SUCCESSFUL"]].
Proof.
  eexists. split; [reflexivity|].
  apply (downloadCSV_parse [ann_row] [arrays; loops] 1700000000123).
  - reflexivity.
  - vm_compute. repeat constructor.
Defined.

(** A username with a comma in it comes back as two cells: the row read
    back is one cell longer than the header. *)
Example downloadCSV_comma_username_parse :
  parse_csv ("Github Username,loops" ++ LF ++ "ann,b,ERROR")
  = [["Github Username"; "loops"]; ["ann"; "b"; "ERROR"]].
Proof. reflexivity. Qed.

(** ** Columns *)

(** Whatever the comparator, the filtered exercises are exercises that
    were fetched; and if the fetched names are pairwise different so are
    the names of the columns. *)
Theorem filteredExercises_columns_unique (localeCompare : string → string → Z)
    (EXERCISES : list string) (h : gmap positive (list Exercise))
    (a : positive) (all : list Exercise) :
  h !! a = Some all →
  ∃ out,
    result_of (filteredExercises localeCompare EXERCISES (Some a) false) h
    = Some out ∧
    (∀ e, e ∈ out → e ∈ all) ∧
    (NoDup (exercise_name <$> all) → NoDup (exercise_name <$> out)).
Proof.
  intros Ha. eexists. split; [by apply filteredExercises_contents|].
  assert (∀ l : list Exercise,
            sort_by (by_exercise_name localeCompare) l ≡ₚ l) as Hperm.
  { intros l. apply sort_by_perm. }
  split.
  - intros e. rewrite Hperm. destruct (decide (EXERCISES = [])); [done|].
    by intros [_ ?]%list_elem_of_filter.
  - intros Hnd. rewrite Hperm. destruct (decide (EXERCISES = [])); [done|].
    eapply sublist_NoDup; [exact Hnd|].
    apply fmap_sublist, sublist_filter.
Qed.

(** A fetched list in which a name comes twice: the filtered exercises
    are still fetched exercises. *)
Lemma filteredExercises_columns_unique_witness :
  (∃ out,
     result_of
       (filteredExercises codeUnitCompare [] (Some 1%positive) false)
       {[ 1%positive := [loops; arrays; loops] ]} = Some out ∧
     (∀ e, e ∈ out → e ∈ [loops; arrays; loops]) ∧
     (NoDup (exercise_name <$> [loops; arrays; loops]) →
      NoDup (exercise_name <$> out))) ∧
  (∃ out,
     result_of
       (filteredExercises codeUnitCompare [] (Some 1%positive) false)
       exercises_store = Some out ∧
     NoDup (exercise_name <$> out)).
Proof.
  split.
  - apply (filteredExercises_columns_unique codeUnitCompare []
             {[ 1%positive := [loops; arrays; loops] ]} 1%positive
             [loops; arrays; loops]).
    reflexivity.
  - destruct (filteredExercises_columns_unique codeUnitCompare []
                exercises_store 1%positive [loops; arrays] eq_refl)
      as (out & Hout & _ & Hnd).
    exists out. split; [exact Hout|]. apply Hnd.
    apply NoDup_cons. split; [|apply NoDup_singleton].
    intros Hin. apply list_elem_of_singleton in Hin. discriminate.
Defined.

(** ** Worked instances *)

Lemma handleRowComputed_replaces_witness :
  last (handleRowComputed two_rows ann_row) = Some ann_row ∧
  ∀ r, r ∈ handleRowComputed two_rows ann_row →
       username r = username ann_row → r = ann_row.
Proof. apply (handleRowComputed_replaces two_rows ann_row). Defined.

Lemma upserts_last_wins_witness :
  ann_row ∈ foldl handleRowComputed [] [stale_ann_row; bob_row; ann_row].
Proof.
  apply (upserts_last_wins [stale_ann_row; bob_row; ann_row] ann_row).
  exists [stale_ann_row; bob_row], []. split; [reflexivity|constructor].
Defined.

Lemma getEmoji_vocabulary_witness : getEmoji (Val "Incomplete") ≠ "".
Proof.
  apply getEmoji_vocabulary.
  do 3 apply list_elem_of_further. apply list_elem_of_here.
Defined.
